(** * lgr.action: the [Action] element and its evaluation

    Shallow embedding of [src/lgr/action.py].  Dispositions and rule names
    are strings, Python [frozenset]s of dispositions are [gset string], the
    dictionary of rules is a [gmap string Rule], and every call that can
    raise returns in the [result] monad below. *)

From stdpp Require Import gmap strings list.

Local Open Scope string_scope.

(** ** Exceptions *)

(** [LGRFormatException.LGRFormatReason]; the enumeration is declared in
    [lgr/exceptions.py], of which [Action] uses this one member. *)
Inductive LGRFormatReason : Type :=
  | MATCH_NOT_MATCH.

(** What a call of this module can raise: the constructor's
    [LGRFormatException], the [KeyError] of a dictionary subscript
    [rules_lookup[name]] on a missing name (the specification calls it
    UnknownRuleReference), and the [RuleError] of the rule matcher. *)
Inductive exception : Type :=
  | LGRFormatException (reason : LGRFormatReason)
  | KeyError (key : string)
  | RuleError (msg : string).

(** A call either returns a value or raises. *)
Inductive result (A : Type) : Type :=
  | Return (v : A)
  | Raise (e : exception).
Arguments Return {A} v.
Arguments Raise {A} e.

#[export] Instance result_ret : MRet result := λ A v, Return v.

#[export] Instance result_bind : MBind result := λ A B k c,
  match c with
  | Return v => k v
  | Raise e => Raise e
  end.

(** Dictionary subscript [d[key]]. *)
Definition getitem {V} (d : gmap string V) (key : string) : result V :=
  match d !! key with
  | Some v => Return v
  | None => Raise (KeyError key)
  end.

(** ** The data model *)

(** A label is a sequence of code points. *)
Definition label : Type := list N.

(** The attributes an [Action] object holds after [__init__]. *)
Record Action : Type := mkAction {
  disp : string;
  comment : option string;
  match_ : option string;
  not_match : option string;
  any_variant : option (gset string);
  all_variants : option (gset string);
  only_variants : option (gset string)
}.

(** [frozenset(xs) if xs else None]: an argument that is [None] or an empty
    sequence is falsy. *)
Definition frozenset_or_None (xs : option (list string)) : option (gset string) :=
  match xs with
  | None => None
  | Some [] => None
  | Some l => Some (list_to_set l)
  end.

(** [Action.__init__].  The attributes are assigned first, then the check
    on [match] and [not_match] raises, in which case no object is built. *)
Definition Action_init (disp : string) (comment match_ not_match : option string)
    (any_variant all_variants only_variants : option (list string)) : result Action :=
  let self := {|
    disp := disp;
    comment := comment;
    match_ := match_;
    not_match := not_match;
    any_variant := frozenset_or_None any_variant;
    all_variants := frozenset_or_None all_variants;
    only_variants := frozenset_or_None only_variants |} in
  match match_, not_match with
  | Some _, Some _ => Raise (LGRFormatException MATCH_NOT_MATCH)
  | _, _ => Return self
  end.

(** ** Evaluation

    [rule.matches(label, rules_lookup, classes_lookup, unicode_database)] is
    a method of the rule objects stored in [rules_lookup]; it belongs to the
    rule engine, which [Action] only calls.  It returns a boolean or
    raises. *)
Class Matcher (Rule Classes UnicodeDatabase : Type) : Type :=
  matches : Rule → label → gmap string Rule → Classes → UnicodeDatabase → result bool.

(** The second bullet of [Action.apply]: the value of the local variable
    [variant_matched] once the [if]/[elif] chain on the three quantifiers
    has run.  The argument [only_variants_flag] is the method's parameter
    [only_variants], renamed apart from the attribute of that name. *)
Definition variant_matched (self : Action) (disp_set : gset string)
    (only_variants_flag : bool) : bool :=
  match any_variant self with
  | Some any_variant => (0 <? size (any_variant ∩ disp_set))%nat
  | None =>
      match all_variants self with
      | Some all_variants =>
          (0 <? size disp_set)%nat && bool_decide (disp_set ⊆ all_variants)
      | None =>
          match only_variants self with
          | Some only_variants =>
              only_variants_flag && (0 <? size disp_set)%nat
              && bool_decide (disp_set ⊆ only_variants)
          | None => true
          end
      end
  end.

Section apply.
Context {Rule Classes UnicodeDatabase : Type}.
Context `{!Matcher Rule Classes UnicodeDatabase}.

(** The first bullet of [Action.apply]: the value of the local variable
    [rule_matched], or the exception of the subscript or of the matcher. *)
Definition rule_matched (self : Action) (label : label)
    (rules_lookup : gmap string Rule) (classes_lookup : Classes)
    (unicode_database : UnicodeDatabase) : result bool :=
  match match_ self with
  | Some name =>
      rule ← getitem rules_lookup name;
      matches rule label rules_lookup classes_lookup unicode_database
  | None =>
      match not_match self with
      | Some name =>
          rule ← getitem rules_lookup name;
          m ← matches rule label rules_lookup classes_lookup unicode_database;
          mret (negb m)
      | None => mret true
      end
  end.

(** [Action.apply]: [Some self.disp] when the action is triggered, [None]
    when it is not.  The rule is looked up and run before the quantifiers
    are looked at, so its exception wins. *)
Definition apply (self : Action) (label : label) (disp_set : gset string)
    (only_variants_flag : bool) (rules_lookup : gmap string Rule)
    (classes_lookup : Classes) (unicode_database : UnicodeDatabase)
    : result (option string) :=
  rule_matched ← rule_matched self label rules_lookup classes_lookup unicode_database;
  let variant_matched := variant_matched self disp_set only_variants_flag in
  if rule_matched && variant_matched then mret (Some (disp self))
  else mret None.

(** *** The evaluation algorithm as the specification words it

    Step 1: [rule_matched] is the named rule's result when [match] is
    present, else the negation of that result when [not_match] is present,
    else true.  It has a value only when the name resolves and the matcher
    returns. *)
Inductive spec_rule_matched (self : Action) (label : label)
    (rules_lookup : gmap string Rule) (classes_lookup : Classes)
    (unicode_database : UnicodeDatabase) : bool → Prop :=
  | spec_match name rule b :
      match_ self = Some name →
      rules_lookup !! name = Some rule →
      matches rule label rules_lookup classes_lookup unicode_database = Return b →
      spec_rule_matched self label rules_lookup classes_lookup unicode_database b
  | spec_not_match name rule b :
      match_ self = None →
      not_match self = Some name →
      rules_lookup !! name = Some rule →
      matches rule label rules_lookup classes_lookup unicode_database = Return b →
      spec_rule_matched self label rules_lookup classes_lookup unicode_database (negb b)
  | spec_no_rule :
      match_ self = None →
      not_match self = None →
      spec_rule_matched self label rules_lookup classes_lookup unicode_database true.

End apply.

(** Step 2: at most one quantifier is evaluated, in the order any, all,
    only. *)
Definition spec_variant_matched (self : Action) (disp_set : gset string)
    (only_variants_flag : bool) : Prop :=
  match any_variant self, all_variants self, only_variants self with
  | Some any, _, _ => any ∩ disp_set ≠ ∅
  | None, Some all, _ => disp_set ≠ ∅ ∧ disp_set ⊆ all
  | None, None, Some only =>
      only_variants_flag = true ∧ disp_set ≠ ∅ ∧ disp_set ⊆ only
  | None, None, None => True
  end.

(** ** Equality and hashing *)

(** [Action.__eq__]: [==] on strings, on [None] and on frozensets, chained
    with [and]. *)
Definition Action_eq (self other : Action) : bool :=
  bool_decide (disp self = disp other)
  && bool_decide (match_ self = match_ other)
  && bool_decide (not_match self = not_match other)
  && bool_decide (any_variant self = any_variant other)
  && bool_decide (all_variants self = all_variants other)
  && bool_decide (only_variants self = only_variants other).

(** The tuple [Action.__hash__] hands to the builtin [hash]. *)
Definition hash_key : Type :=
  string * option string * option string
  * option (gset string) * option (gset string) * option (gset string).

(** [Action.__hash__], over the interpreter's [hash] on such tuples. *)
Definition Action_hash (hash : hash_key → Z) (self : Action) : Z :=
  hash (disp self, match_ self, not_match self,
        any_variant self, all_variants self, only_variants self).

(** ** A rule engine to run the definitions on

    A rule tests the first code point of the label, or is invalid and makes
    the matcher raise. *)
Inductive SampleRule : Type :=
  | StartsWith (cp : N)
  | Invalid (msg : string).

#[export] Instance sample_matcher : Matcher SampleRule unit unit :=
  λ rule label _ _ _,
    match rule with
    | StartsWith cp => Return (bool_decide (head label = Some cp))
    | Invalid msg => Raise (RuleError msg)
    end.

Definition sample_rules : gmap string SampleRule :=
  {[ "leading-a" := StartsWith 97%N; "broken" := Invalid "bad rule" ]}.

(** A stand-in for the builtin [hash]: the length of the disposition. *)
Definition sample_hash (k : hash_key) : Z :=
  Z.of_nat (String.length k.1.1.1.1.1).

(** Sample actions. *)
Definition guarded_action : Action :=
  mkAction "blocked" (Some "leading a, variant x or y")
           (Some "leading-a") None (Some {["x"; "y"]}) None None.

Definition two_quantifiers_action : Action :=
  mkAction "d" None None None (Some {["valid"]}) (Some {["blocked"]}) None.

Definition missing_rule_action : Action :=
  mkAction "blocked" None (Some "missing") None None None None.

Definition catch_all_action : Action :=
  mkAction "allowed" (Some "catch-all") None None None None None.

Definition any_variant_action : Action :=
  mkAction "d" None None None (Some {["valid"; "blocked"]}) None None.

Definition all_variants_action : Action :=
  mkAction "d" None None None None (Some {["valid"; "blocked"]}) None.

Definition only_variants_action : Action :=
  mkAction "d" None None None None None (Some {["valid"]}).

(** ** Representation *)

(** [Action.__repr__]: ['<Action: {}>'.format(self.comment or 'anon')].  A
    comment that is [None] or the empty string is falsy. *)
Definition Action_repr (self : Action) : string :=
  "<Action: "
  +:+ match comment self with
      | Some c => if decide (c = "") then "anon" else c
      | None => "anon"
      end
  +:+ ">".

(** ** The calls on [rule_logger]

    [Action.apply] reports its steps on the logger [rule_logger].  A record
    holds what one call [rule_logger.debug(msg, *args)] or
    [rule_logger.info(msg, *args)] is given: the level, the format string
    and the arguments, which the logging module formats later. *)
Inductive log_level : Type :=
  | DEBUG
  | INFO.

Inductive log_arg : Type :=
  | ArgAction (a : Action)
  | ArgStr (s : string)
  | ArgSet (s : gset string)
  | ArgBool (b : bool).

Record log_record : Type := mkLog {
  log_lvl : log_level;
  log_msg : string;
  log_args : list log_arg
}.

(** A call that logs: the records it has emitted so far, and what it
    returns or raises.  The records emitted before an exception stay. *)
Definition logged (A : Type) : Type := list log_record * result A.

#[export] Instance logged_ret : MRet logged := λ A v, ([], Return v).

#[export] Instance logged_bind : MBind logged := λ A B k c,
  match c with
  | (l, Return v) => let '(l', r) := k v in ((l ++ l')%list, r)
  | (l, Raise e) => (l, Raise e)
  end.

Definition debug (msg : string) (args : list log_arg) : logged unit :=
  ([mkLog DEBUG msg args], Return ()).

Definition info (msg : string) (args : list log_arg) : logged unit :=
  ([mkLog INFO msg args], Return ()).

(** A call that does not log. *)
Definition quiet {A} (c : result A) : logged A := ([], c).

Section apply_logged.
Context {Rule Classes UnicodeDatabase : Type}.
Context `{!Matcher Rule Classes UnicodeDatabase}.

(** [lgr.utils.format_cp], which renders the label for the first record. *)
Variable format_cp : label → string.

(** [Action.apply], statement by statement, with its calls on
    [rule_logger]. *)
Definition apply_logged (self : Action) (label : label) (disp_set : gset string)
    (only_variants_flag : bool) (rules_lookup : gmap string Rule)
    (classes_lookup : Classes) (unicode_database : UnicodeDatabase)
    : logged (option string) :=
  debug "Applying action %s on label '%s' with disposition set '%s'"
        [ArgAction self; ArgStr (format_cp label); ArgSet disp_set];;
  rule_matched ←
    match match_ self with
    | Some name =>
        rule ← quiet (getitem rules_lookup name);
        rule_matched ←
          quiet (matches rule label rules_lookup classes_lookup unicode_database);
        info "Action %s: when rule matched: %s"
             [ArgAction self; ArgBool rule_matched];;
        mret rule_matched
    | None =>
        match not_match self with
        | Some name =>
            rule ← quiet (getitem rules_lookup name);
            m ← quiet (matches rule label rules_lookup classes_lookup
                               unicode_database);
            let rule_matched := negb m in
            info "Action %s: not-when rule matched: %s"
                 [ArgAction self; ArgBool rule_matched];;
            mret rule_matched
        | None => mret true
        end
    end;
  variant_matched ←
    match any_variant self with
    | Some any_variant =>
        let variant_matched := (0 <? size (any_variant ∩ disp_set))%nat in
        info "Action %s: any-variant matched: %s"
             [ArgAction self; ArgBool variant_matched];;
        mret variant_matched
    | None =>
        match all_variants self with
        | Some all_variants =>
            let variant_matched :=
              (0 <? size disp_set)%nat && bool_decide (disp_set ⊆ all_variants) in
            info "Action %s: all-variants matched: %s"
                 [ArgAction self; ArgBool variant_matched];;
            mret variant_matched
        | None =>
            match only_variants self with
            | Some only_variants =>
                let variant_matched :=
                  only_variants_flag && (0 <? size disp_set)%nat
                  && bool_decide (disp_set ⊆ only_variants) in
                info "Action %s: only-variants matched: %s"
                     [ArgAction self; ArgBool variant_matched];;
                mret variant_matched
            | None => mret true
            end
        end
    end;
  if rule_matched && variant_matched then
    info "Action %s triggered, disposition: %s"
         [ArgAction self; ArgStr (disp self)];;
    mret (Some (disp self))
  else
    info "Action %s not triggered" [ArgAction self];;
    mret None.

(** The record [apply] opens with. *)
Definition opening_record (self : Action) (label : label)
    (disp_set : gset string) : log_record :=
  mkLog DEBUG "Applying action %s on label '%s' with disposition set '%s'"
        [ArgAction self; ArgStr (format_cp label); ArgSet disp_set].

(** The record [apply] closes with when it returns [outcome]. *)
Definition closing_record (self : Action) (outcome : option string)
    : log_record :=
  match outcome with
  | Some d =>
      mkLog INFO "Action %s triggered, disposition: %s"
            [ArgAction self; ArgStr d]
  | None => mkLog INFO "Action %s not triggered" [ArgAction self]
  end.

End apply_logged.

(** The record of the rule condition, when the action has one: the first
    to be found of [match] and [not_match] names the message. *)
Definition rule_records (self : Action) (rule_matched : bool)
    : list log_record :=
  match match_ self, not_match self with
  | Some _, _ =>
      [mkLog INFO "Action %s: when rule matched: %s"
             [ArgAction self; ArgBool rule_matched]]
  | None, Some _ =>
      [mkLog INFO "Action %s: not-when rule matched: %s"
             [ArgAction self; ArgBool rule_matched]]
  | None, None => []
  end.

(** The record of the quantifier, when the action has one. *)
Definition variant_records (self : Action) (variant_matched : bool)
    : list log_record :=
  match any_variant self, all_variants self, only_variants self with
  | Some _, _, _ =>
      [mkLog INFO "Action %s: any-variant matched: %s"
             [ArgAction self; ArgBool variant_matched]]
  | None, Some _, _ =>
      [mkLog INFO "Action %s: all-variants matched: %s"
             [ArgAction self; ArgBool variant_matched]]
  | None, None, Some _ =>
      [mkLog INFO "Action %s: only-variants matched: %s"
             [ArgAction self; ArgBool variant_matched]]
  | None, None, None => []
  end.

(** A stand-in for [format_cp]: one word per code point. *)
Definition sample_format_cp (l : label) : string :=
  String.concat " " ((λ _, "cp") <$> l).

Definition both_rules_action : Action :=
  mkAction "blocked" None (Some "leading-a") (Some "missing") None None None.

Definition uncommented_action : Action :=
  mkAction "blocked" None (Some "leading-a") None (Some {["x"; "y"]}) None None.

Definition broken_rule_action : Action :=
  mkAction "blocked" None (Some "broken") None (Some {["x"]}) None None.

Definition rule_only_action : Action :=
  mkAction "blocked" None (Some "leading-a") None None None None.

(** * Properties *)

(** ** Running the definitions *)

Example apply_rule_and_any_variant :
  apply (mkAction "blocked" None (Some "leading-a") None (Some {["x"; "y"]}) None None)
        [97%N] {["x"]} false sample_rules () ()
  = Return (Some "blocked").
Proof. vm_compute. reflexivity. Qed.

Example apply_rule_fails :
  apply (mkAction "blocked" None (Some "leading-a") None (Some {["x"; "y"]}) None None)
        [98%N] {["x"]} false sample_rules () ()
  = Return None.
Proof. vm_compute. reflexivity. Qed.

Example apply_not_match :
  apply (mkAction "blocked" None None (Some "leading-a") None None None)
        [98%N] ∅ false sample_rules () ()
  = Return (Some "blocked").
Proof. vm_compute. reflexivity. Qed.

Example apply_matcher_raises :
  apply (mkAction "blocked" None (Some "broken") None None None None)
        [98%N] ∅ false sample_rules () ()
  = Raise (RuleError "bad rule").
Proof. vm_compute. reflexivity. Qed.

Example all_variants_examples :
  let a := mkAction "d" None None None None (Some {["valid"; "blocked"]}) None in
  variant_matched a ∅ true = false
  ∧ variant_matched a {["valid"; "blocked"]} true = true
  ∧ variant_matched a {["valid"; "other"]} true = false.
Proof. vm_compute. done. Qed.

Example only_variants_examples :
  let a := mkAction "d" None None None None None (Some {["valid"]}) in
  variant_matched a {["valid"]} false = false
  ∧ variant_matched a {["valid"]} true = true.
Proof. vm_compute. done. Qed.

(** ** Building blocks *)

(** [len(s) > 0] says that the set is not empty. *)
Lemma len_pos_nonempty (X : gset string) :
  (0 <? size X)%nat = true ↔ X ≠ ∅.
Proof.
  rewrite Nat.ltb_lt. split.
  - intros Hpos ->. rewrite size_empty in Hpos. lia.
  - intros Hne. destruct (size X) eqn:Hsz; [|lia].
    apply size_empty_iff in Hsz. by fold_leibniz.
Qed.

(** The code's [variant_matched] decides the specification's step 2. *)
Lemma variant_matched_spec self disp_set only_variants_flag :
  variant_matched self disp_set only_variants_flag = true
  ↔ spec_variant_matched self disp_set only_variants_flag.
Proof.
  unfold variant_matched, spec_variant_matched.
  destruct (any_variant self) as [any|]; [apply len_pos_nonempty|].
  destruct (all_variants self) as [all|].
  { by rewrite andb_true_iff, len_pos_nonempty, bool_decide_eq_true. }
  destruct (only_variants self) as [only|]; [|done].
  rewrite !andb_true_iff, len_pos_nonempty, bool_decide_eq_true. tauto.
Qed.

(** A frozenset that [__init__] stores is never empty. *)
Lemma frozenset_or_None_nonempty xs X :
  frozenset_or_None xs = Some X → X ≠ ∅.
Proof.
  destruct xs as [[|x l]|]; cbn; [done| |done].
  intros [= <-] Hempty.
  apply (not_elem_of_empty (C:=gset string) x). rewrite <- Hempty.
  apply elem_of_union_l. by apply elem_of_singleton.
Qed.

(** Only the check on [match] and [not_match] makes [__init__] raise. *)
Lemma Action_init_Return disp comment m nm any all only :
  m = None ∨ nm = None →
  Action_init disp comment m nm any all only
  = Return (mkAction disp comment m nm (frozenset_or_None any)
                     (frozenset_or_None all) (frozenset_or_None only)).
Proof. unfold Action_init. intros [-> | ->]; [done|by destruct m]. Qed.

Lemma Action_init_inv disp comment m nm any all only self :
  Action_init disp comment m nm any all only = Return self →
  (m = None ∨ nm = None)
  ∧ self = mkAction disp comment m nm (frozenset_or_None any)
                    (frozenset_or_None all) (frozenset_or_None only).
Proof.
  unfold Action_init. destruct m, nm; intros [= <-]; auto.
Qed.

Section evaluation.
Context {Rule Classes UnicodeDatabase : Type}.
Context `{!Matcher Rule Classes UnicodeDatabase}.
Implicit Types (self : Action) (label : label) (disp_set : gset string).
Implicit Types (rules_lookup : gmap string Rule) (classes_lookup : Classes).
Implicit Types (unicode_database : UnicodeDatabase).

(** The code's [rule_matched] returns exactly the values the
    specification's step 1 gives. *)
Lemma rule_matched_spec self label rules_lookup classes_lookup unicode_database b :
  rule_matched self label rules_lookup classes_lookup unicode_database = Return b
  ↔ spec_rule_matched self label rules_lookup classes_lookup unicode_database b.
Proof.
  unfold rule_matched, getitem. split.
  - destruct (match_ self) as [name|] eqn:Hm.
    + destruct (rules_lookup !! name) as [rule|] eqn:Hr; [|done].
      cbn. intros Hb. by eapply spec_match.
    + destruct (not_match self) as [name|] eqn:Hn.
      * destruct (rules_lookup !! name) as [rule|] eqn:Hr; [|done].
        cbn. destruct (matches rule _ _ _ _) as [m|] eqn:Hb; [|done].
        cbn. intros [= <-]. by eapply spec_not_match.
      * cbn. intros [= <-]. by apply spec_no_rule.
  - intros [name rule b' Hm Hr Hb|name rule b' Hm Hn Hr Hb|Hm Hn].
    + by rewrite Hm, Hr.
    + rewrite Hm, Hn, Hr. cbn. by rewrite Hb.
    + by rewrite Hm, Hn.
Qed.

(** What [apply] returns, in terms of its two local variables. *)
Lemma apply_Return self label disp_set flag rules_lookup classes_lookup
    unicode_database r :
  apply self label disp_set flag rules_lookup classes_lookup unicode_database
    = Return r
  ↔ ∃ b, rule_matched self label rules_lookup classes_lookup unicode_database
           = Return b
         ∧ r = if b && variant_matched self disp_set flag
               then Some (disp self) else None.
Proof.
  unfold apply.
  destruct (rule_matched _ _ _ _ _) as [b|e]; cbn.
  - split.
    + intros Hr. exists b. split; [done|].
      destruct (b && _); cbn in Hr; by inversion Hr.
    + intros (b' & [= <-] & ->). by destruct (b && _).
  - split; [done|]. by intros (b' & ? & _).
Qed.

(** What [apply] raises: the exception of its first bullet. *)
Lemma apply_Raise self label disp_set flag rules_lookup classes_lookup
    unicode_database e :
  apply self label disp_set flag rules_lookup classes_lookup unicode_database
    = Raise e
  ↔ rule_matched self label rules_lookup classes_lookup unicode_database
      = Raise e.
Proof.
  unfold apply.
  destruct (rule_matched _ _ _ _ _) as [b|e']; cbn.
  - destruct (b && _); split; inversion 1.
  - split; by intros [= ->].
Qed.

(** [apply] returns the disposition exactly when both local variables
    are true. *)
Lemma apply_Some_disp self label disp_set flag rules_lookup classes_lookup
    unicode_database :
  apply self label disp_set flag rules_lookup classes_lookup unicode_database
    = Return (Some (disp self))
  ↔ rule_matched self label rules_lookup classes_lookup unicode_database
      = Return true
    ∧ variant_matched self disp_set flag = true.
Proof.
  rewrite apply_Return. split.
  - intros (b & Hb & Hd). by destruct b, (variant_matched _ _ _).
  - intros [Hb Hv]. exists true. by rewrite Hv.
Qed.

(** C1.  In every evaluation context, [apply] returns [Some d] exactly when
    [d] is the action's disposition, the rule condition has the value true
    and the variant condition holds; it returns [None] exactly when the
    rule condition has a value and the two do not both hold.  The rule
    condition is the named rule's result under [match], its negation under
    [not_match], true without either. *)
Theorem apply_fires_iff self label disp_set only_variants_flag rules_lookup
    classes_lookup unicode_database :
  (∀ d,
     apply self label disp_set only_variants_flag rules_lookup classes_lookup
           unicode_database = Return (Some d)
     ↔ d = disp self
       ∧ spec_rule_matched self label rules_lookup classes_lookup
           unicode_database true
       ∧ spec_variant_matched self disp_set only_variants_flag)
  ∧ (apply self label disp_set only_variants_flag rules_lookup classes_lookup
           unicode_database = Return None
     ↔ ∃ b, spec_rule_matched self label rules_lookup classes_lookup
              unicode_database b
            ∧ ¬ (b = true
                 ∧ spec_variant_matched self disp_set only_variants_flag)).
Proof.
  split; [intros d|]; rewrite apply_Return;
    setoid_rewrite rule_matched_spec;
    setoid_rewrite <- variant_matched_spec.
  - split.
    + intros (b & Hb & Hd).
      destruct b, (variant_matched _ _ _); inversion Hd; by subst.
    + intros (-> & Hb & Hv). exists true. by rewrite Hv.
  - split.
    + intros (b & Hb & Hd). exists b. split; [done|].
      intros [-> Hv]. by rewrite Hv in Hd.
    + intros (b & Hb & Hnot). exists b. split; [done|].
      destruct b, (variant_matched _ _ _); naive_solver.
Qed.

(** C2.  Only the first present quantifier, in the order any, all, only,
    is evaluated.  With [any_variant] present, [apply] gives what the same
    action without [all_variants] and [only_variants] gives; with
    [any_variant] absent and [all_variants] present, what the same action
    without [only_variants] gives.  An action built with
    [any_variant = {valid}] and [all_variants = {blocked}] follows
    [any_variant] on both kinds of disagreement: it fires on
    [{valid, other}], where [all_variants] alone does not, and does not
    fire on [{blocked}], where [all_variants] alone does. *)
Theorem quantifier_priority :
  (∀ self any label disp_set flag rules_lookup classes_lookup unicode_database,
     any_variant self = Some any →
     apply self label disp_set flag rules_lookup classes_lookup unicode_database
     = apply (mkAction (disp self) (comment self) (match_ self) (not_match self)
                       (Some any) None None)
             label disp_set flag rules_lookup classes_lookup unicode_database)
  ∧ (∀ self all label disp_set flag rules_lookup classes_lookup unicode_database,
       any_variant self = None →
       all_variants self = Some all →
       apply self label disp_set flag rules_lookup classes_lookup unicode_database
       = apply (mkAction (disp self) (comment self) (match_ self) (not_match self)
                         None (Some all) None)
               label disp_set flag rules_lookup classes_lookup unicode_database)
  ∧ (∃ both any_only all_only,
       Action_init "d" None None None (Some ["valid"]) (Some ["blocked"]) None
         = Return both
       ∧ Action_init "d" None None None (Some ["valid"]) None None
         = Return any_only
       ∧ Action_init "d" None None None None (Some ["blocked"]) None
         = Return all_only
       ∧ ∀ label flag rules_lookup classes_lookup unicode_database,
           let run a disp_set :=
             apply a label disp_set flag rules_lookup classes_lookup
                   unicode_database in
           run any_only {["valid"; "other"]} = Return (Some "d")
           ∧ run all_only {["valid"; "other"]} = Return None
           ∧ run both {["valid"; "other"]} = Return (Some "d")
           ∧ run any_only {["blocked"]} = Return None
           ∧ run all_only {["blocked"]} = Return (Some "d")
           ∧ run both {["blocked"]} = Return None).
Proof.
  split; [|split].
  - intros self any label disp_set flag rules_lookup classes_lookup
      unicode_database Hany.
    unfold apply, rule_matched, variant_matched. cbn. by rewrite Hany.
  - intros self all label disp_set flag rules_lookup classes_lookup
      unicode_database Hany Hall.
    unfold apply, rule_matched, variant_matched. cbn. by rewrite Hany, Hall.
  - eexists _, _, _. do 3 (split; [reflexivity|]).
    intros label flag rules_lookup classes_lookup unicode_database.
    unfold apply, rule_matched. cbn.
    repeat split; by vm_compute.
Qed.

(** C3.  For an action that [Action_init] built, when the name under
    [match] or [not_match] is missing from the rules, [apply] raises the
    [KeyError] of that name and returns nothing, neither a disposition nor
    [None]. *)
Theorem unknown_rule_raises disp comment m nm any all only self name label
    disp_set flag rules_lookup classes_lookup unicode_database :
  Action_init disp comment m nm any all only = Return self →
  match_ self = Some name ∨ not_match self = Some name →
  rules_lookup !! name = None →
  apply self label disp_set flag rules_lookup classes_lookup unicode_database
    = Raise (KeyError name)
  ∧ ∀ r, apply self label disp_set flag rules_lookup classes_lookup
               unicode_database ≠ Return r.
Proof.
  intros Hinit Hname Hmiss.
  assert (apply self label disp_set flag rules_lookup classes_lookup
                unicode_database = Raise (KeyError name)) as Hraise.
  { apply apply_Raise. unfold rule_matched, getitem.
    unfold Action_init in Hinit.
    destruct m as [m|], nm as [nm|]; inversion Hinit; subst; cbn in *;
      destruct Hname as [[= ->]|[= ->]]; by rewrite Hmiss. }
  split; [done|]. intros r Hr. by rewrite Hraise in Hr.
Qed.

(** C8.  An action with no [match], no [not_match] and no quantifier
    returns its disposition for every label, every [disp_set], both values
    of the flag and every registry. *)
Theorem unconditional_action_fires self label disp_set flag rules_lookup
    classes_lookup unicode_database :
  match_ self = None →
  not_match self = None →
  any_variant self = None →
  all_variants self = None →
  only_variants self = None →
  apply self label disp_set flag rules_lookup classes_lookup unicode_database
    = Return (Some (disp self)).
Proof.
  intros Hm Hn Hany Hall Honly.
  unfold apply, rule_matched, variant_matched.
  by rewrite Hm, Hn, Hany, Hall, Honly.
Qed.

(** C7.  With [any_variant] present, the variant condition holds iff
    [any_variant ∩ disp_set] is not empty: one shared disposition is enough,
    a disjoint [disp_set] fails, and so does the empty one.  [apply] then
    fires iff the rule condition is true and the intersection is not
    empty. *)
Theorem any_variant_condition self any label disp_set flag rules_lookup
    classes_lookup unicode_database :
  any_variant self = Some any →
  (variant_matched self disp_set flag = true ↔ any ∩ disp_set ≠ ∅)
  ∧ (∀ d, d ∈ any → d ∈ disp_set → variant_matched self disp_set flag = true)
  ∧ (any ## disp_set → variant_matched self disp_set flag = false)
  ∧ variant_matched self ∅ flag = false
  ∧ (apply self label disp_set flag rules_lookup classes_lookup unicode_database
       = Return (Some (disp self))
     ↔ rule_matched self label rules_lookup classes_lookup unicode_database
         = Return true
       ∧ any ∩ disp_set ≠ ∅).
Proof.
  intros Hany.
  assert (∀ ds, variant_matched self ds flag = true ↔ any ∩ ds ≠ ∅) as Hiff.
  { intros ds. unfold variant_matched. rewrite Hany. apply len_pos_nonempty. }
  split; [apply Hiff|]. split; [|split; [|split]].
  - intros d Hd1 Hd2. apply Hiff. intros Hempty.
    apply (not_elem_of_empty (C:=gset string) d). rewrite <- Hempty.
    by apply elem_of_intersection.
  - intros Hdisj. apply not_true_iff_false. rewrite Hiff.
    intros Hne. apply Hne. by apply disjoint_intersection_L.
  - apply not_true_iff_false. rewrite Hiff.
    intros Hne. apply Hne. apply (right_absorb_L ∅ (∩)).
  - by rewrite apply_Some_disp, Hiff.
Qed.

(** C4.  With [any_variant] absent and [all_variants] present, the variant
    condition holds iff [disp_set] is not empty and is a subset of
    [all_variants]; the empty [disp_set] never satisfies it.  [apply] then
    fires iff the rule condition is true and both hold. *)
Theorem all_variants_condition self all label disp_set flag rules_lookup
    classes_lookup unicode_database :
  any_variant self = None →
  all_variants self = Some all →
  (variant_matched self disp_set flag = true ↔ disp_set ≠ ∅ ∧ disp_set ⊆ all)
  ∧ variant_matched self ∅ flag = false
  ∧ (apply self label disp_set flag rules_lookup classes_lookup unicode_database
       = Return (Some (disp self))
     ↔ rule_matched self label rules_lookup classes_lookup unicode_database
         = Return true
       ∧ disp_set ≠ ∅ ∧ disp_set ⊆ all).
Proof.
  intros Hany Hall.
  assert (∀ ds, variant_matched self ds flag = true ↔ ds ≠ ∅ ∧ ds ⊆ all) as Hiff.
  { intros ds. unfold variant_matched. rewrite Hany, Hall.
    by rewrite andb_true_iff, len_pos_nonempty, bool_decide_eq_true. }
  split; [apply Hiff|]. split.
  - apply not_true_iff_false. rewrite Hiff. by intros [? _].
  - by rewrite apply_Some_disp, Hiff.
Qed.

(** C5.  With [any_variant] and [all_variants] absent and [only_variants]
    present, the variant condition holds iff the flag is true, [disp_set] is
    not empty and [disp_set] is a subset of [only_variants]; a false flag
    defeats it for every [disp_set].  [apply] then fires iff the rule
    condition is true and all three hold. *)
Theorem only_variants_condition self only label disp_set flag rules_lookup
    classes_lookup unicode_database :
  any_variant self = None →
  all_variants self = None →
  only_variants self = Some only →
  (variant_matched self disp_set flag = true
   ↔ flag = true ∧ disp_set ≠ ∅ ∧ disp_set ⊆ only)
  ∧ (∀ ds, variant_matched self ds false = false)
  ∧ (apply self label disp_set flag rules_lookup classes_lookup unicode_database
       = Return (Some (disp self))
     ↔ rule_matched self label rules_lookup classes_lookup unicode_database
         = Return true
       ∧ flag = true ∧ disp_set ≠ ∅ ∧ disp_set ⊆ only).
Proof.
  intros Hany Hall Honly.
  assert (∀ ds f, variant_matched self ds f = true
                  ↔ f = true ∧ ds ≠ ∅ ∧ ds ⊆ only) as Hiff.
  { intros ds f. unfold variant_matched. rewrite Hany, Hall, Honly.
    rewrite !andb_true_iff, len_pos_nonempty, bool_decide_eq_true. tauto. }
  split; [apply Hiff|]. split.
  - intros ds. apply not_true_iff_false. rewrite Hiff. by intros [? _].
  - by rewrite apply_Some_disp, Hiff.
Qed.

(** C6.  [Action_init] with both [match] and [not_match] given raises
    [LGRFormatException MATCH_NOT_MATCH]; with one of them [None] it returns
    the action, whatever the other arguments; so that exception is its only
    failure.  [apply] does not repeat the check: what it raises is the
    [KeyError] of the name it looks up or the exception of the matcher. *)
Theorem match_and_not_match_rejected :
  (∀ disp comment m nm any all only,
     is_Some m → is_Some nm →
     Action_init disp comment m nm any all only
     = Raise (LGRFormatException MATCH_NOT_MATCH))
  ∧ (∀ disp comment m nm any all only,
       m = None ∨ nm = None →
       Action_init disp comment m nm any all only
       = Return (mkAction disp comment m nm (frozenset_or_None any)
                          (frozenset_or_None all) (frozenset_or_None only)))
  ∧ (∀ disp comment m nm any all only e,
       Action_init disp comment m nm any all only = Raise e →
       e = LGRFormatException MATCH_NOT_MATCH ∧ is_Some m ∧ is_Some nm)
  ∧ (∀ self label disp_set flag rules_lookup classes_lookup unicode_database e,
       apply self label disp_set flag rules_lookup classes_lookup
             unicode_database = Raise e →
       ∃ name,
         (match_ self = Some name
          ∨ match_ self = None ∧ not_match self = Some name)
         ∧ (rules_lookup !! name = None ∧ e = KeyError name
            ∨ ∃ rule, rules_lookup !! name = Some rule
                      ∧ matches rule label rules_lookup classes_lookup
                                unicode_database = Raise e)).
Proof.
  split; [|split; [|split]].
  - by intros disp comment m nm any all only [m' ->] [nm' ->].
  - apply Action_init_Return.
  - intros disp comment m nm any all only e. unfold Action_init.
    destruct m, nm; intros [= <-]; eauto.
  - intros self label disp_set flag rules_lookup classes_lookup
      unicode_database e. rewrite apply_Raise. unfold rule_matched, getitem.
    destruct (match_ self) as [name|].
    + intros Hraise. exists name. split; [by left|].
      destruct (rules_lookup !! name) as [rule|]; cbn in Hraise.
      * right. by exists rule.
      * left. by inversion Hraise.
    + destruct (not_match self) as [name|]; [|done].
      intros Hraise. exists name. split; [by right|].
      destruct (rules_lookup !! name) as [rule|]; cbn in Hraise.
      * right. exists rule. split; [done|].
        by destruct (matches rule _ _ _ _).
      * left. by inversion Hraise.
Qed.

(** C9.  [Action_init] turns an empty sequence given for a quantifier into
    an absent field: the call returns what it returns with [None] in that
    place, so the two actions are the same and [apply] agrees on them; the
    field is [None], and with all three empty or [None] every [disp_set]
    passes the variant condition; and no field of a built action is a
    present empty set. *)
Theorem empty_quantifier_is_absent :
  (∀ disp comment m nm any all only,
     Action_init disp comment m nm (Some []) all only
     = Action_init disp comment m nm None all only
     ∧ Action_init disp comment m nm any (Some []) only
       = Action_init disp comment m nm any None only
     ∧ Action_init disp comment m nm any all (Some [])
       = Action_init disp comment m nm any all None)
  ∧ (∀ disp comment m nm any all only any' all' only' self self',
       any' = any ∨ any = Some [] ∧ any' = None →
       all' = all ∨ all = Some [] ∧ all' = None →
       only' = only ∨ only = Some [] ∧ only' = None →
       Action_init disp comment m nm any all only = Return self →
       Action_init disp comment m nm any' all' only' = Return self' →
       ∀ label disp_set flag rules_lookup classes_lookup unicode_database,
         apply self label disp_set flag rules_lookup classes_lookup
               unicode_database
         = apply self' label disp_set flag rules_lookup classes_lookup
                 unicode_database)
  ∧ (∀ disp comment m nm any all only self,
       Action_init disp comment m nm any all only = Return self →
       (any = Some [] → any_variant self = None)
       ∧ (all = Some [] → all_variants self = None)
       ∧ (only = Some [] → only_variants self = None)
       ∧ any_variant self ≠ Some ∅
       ∧ all_variants self ≠ Some ∅
       ∧ only_variants self ≠ Some ∅)
  ∧ (∀ disp comment m nm any all only self,
       any = Some [] ∨ any = None →
       all = Some [] ∨ all = None →
       only = Some [] ∨ only = None →
       Action_init disp comment m nm any all only = Return self →
       ∀ disp_set flag, variant_matched self disp_set flag = true).
Proof.
  split; [done|]. split; [|split].
  - intros disp comment m nm any all only any' all' only' self self'
      Hany Hall Honly Hself Hself'.
    assert (self = self') as ->; [|done].
    apply Action_init_inv in Hself as [_ ->].
    apply Action_init_inv in Hself' as [_ ->].
    by destruct Hany as [->|[-> ->]], Hall as [->|[-> ->]],
      Honly as [->|[-> ->]].
  - intros disp comment m nm any all only self Hself.
    apply Action_init_inv in Hself as [_ ->]. cbn.
    repeat split; try (by intros ->);
      intros Hempty; by eapply frozenset_or_None_nonempty.
  - intros disp comment m nm any all only self Hany Hall Honly Hself.
    apply Action_init_inv in Hself as [_ ->].
    by destruct Hany as [-> | ->], Hall as [-> | ->], Honly as [-> | ->].
Qed.

End evaluation.

(** C10.  [Action_eq] is true iff the six attributes [disp], [match],
    [not_match], [any_variant], [all_variants] and [only_variants] are
    equal; [comment] plays no part; equal actions have the same hash,
    whatever [hash] does on tuples; and two actions that differ in one of
    the six are not equal. *)
Theorem Action_eq_iff :
  (∀ self other,
     Action_eq self other = true
     ↔ disp self = disp other
       ∧ match_ self = match_ other
       ∧ not_match self = not_match other
       ∧ any_variant self = any_variant other
       ∧ all_variants self = all_variants other
       ∧ only_variants self = only_variants other)
  ∧ (∀ disp comment comment' m nm any all only,
       Action_eq (mkAction disp comment m nm any all only)
                 (mkAction disp comment' m nm any all only) = true)
  ∧ (∀ hash self other,
       Action_eq self other = true →
       Action_hash hash self = Action_hash hash other)
  ∧ (∀ self other,
       disp self ≠ disp other
       ∨ match_ self ≠ match_ other
       ∨ not_match self ≠ not_match other
       ∨ any_variant self ≠ any_variant other
       ∨ all_variants self ≠ all_variants other
       ∨ only_variants self ≠ only_variants other →
       Action_eq self other = false).
Proof.
  assert (∀ self other,
     Action_eq self other = true
     ↔ disp self = disp other
       ∧ match_ self = match_ other
       ∧ not_match self = not_match other
       ∧ any_variant self = any_variant other
       ∧ all_variants self = all_variants other
       ∧ only_variants self = only_variants other) as Hiff.
  { intros self other. unfold Action_eq.
    rewrite !andb_true_iff, !bool_decide_eq_true. tauto. }
  split; [done|]. split; [|split].
  - intros. by apply Hiff.
  - intros hash self other (Hd & Hm & Hn & Hany & Hall & Honly)%Hiff.
    unfold Action_hash. by rewrite Hd, Hm, Hn, Hany, Hall, Honly.
  - intros self other Hdiff. apply not_true_iff_false.
    rewrite Hiff. tauto.
Qed.

(** ** The theorems at concrete inputs

    Each statement below instantiates one theorem above on the sample rule
    engine, with its hypotheses checked by evaluation. *)

Lemma apply_fires_iff_witness :
  apply guarded_action [97%N] {["x"]} false sample_rules () ()
    = Return (Some "blocked")
  ∧ "blocked" = disp guarded_action
  ∧ spec_rule_matched guarded_action [97%N] sample_rules () () true
  ∧ spec_variant_matched guarded_action {["x"]} false.
Proof.
  assert (apply guarded_action [97%N] {["x"]} false sample_rules () ()
          = Return (Some "blocked")) as Hrun by (vm_compute; reflexivity).
  split; [exact Hrun|].
  exact (proj1 (proj1 (apply_fires_iff guarded_action [97%N] {["x"]} false
                         sample_rules () ()) "blocked") Hrun).
Defined.

Lemma quantifier_priority_witness :
  any_variant two_quantifiers_action = Some {["valid"]}
  ∧ apply two_quantifiers_action [] {["valid"; "other"]} false
          sample_rules () ()
    = apply (mkAction "d" None None None (Some {["valid"]}) None None)
            [] {["valid"; "other"]} false sample_rules () ().
Proof.
  split; [reflexivity|].
  apply (proj1 (@quantifier_priority SampleRule unit unit sample_matcher)
           two_quantifiers_action).
  reflexivity.
Defined.

Lemma unknown_rule_raises_witness :
  Action_init "blocked" None (Some "missing") None None None None
    = Return missing_rule_action
  ∧ (match_ missing_rule_action = Some "missing"
     ∨ not_match missing_rule_action = Some "missing")
  ∧ sample_rules !! "missing" = None
  ∧ apply missing_rule_action [97%N] ∅ false sample_rules () ()
    = Raise (KeyError "missing")
  ∧ ∀ r, apply missing_rule_action [97%N] ∅ false sample_rules () ()
         ≠ Return r.
Proof.
  split; [reflexivity|]. split; [left; reflexivity|].
  split; [vm_compute; reflexivity|].
  apply (unknown_rule_raises "blocked" None (Some "missing") None None None None
           missing_rule_action "missing" [97%N] ∅ false sample_rules () ()).
  - reflexivity.
  - left. reflexivity.
  - vm_compute. reflexivity.
Defined.

Lemma unconditional_action_fires_witness :
  match_ catch_all_action = None
  ∧ not_match catch_all_action = None
  ∧ any_variant catch_all_action = None
  ∧ all_variants catch_all_action = None
  ∧ only_variants catch_all_action = None
  ∧ apply catch_all_action [97%N; 98%N] {["blocked"]} false sample_rules () ()
    = Return (Some "allowed").
Proof.
  do 5 (split; [reflexivity|]).
  apply (unconditional_action_fires catch_all_action
           [97%N; 98%N] {["blocked"]} false sample_rules () ());
    reflexivity.
Defined.

Lemma any_variant_condition_witness :
  any_variant any_variant_action = Some {["valid"; "blocked"]}
  ∧ (variant_matched any_variant_action {["valid"]} false = true
     ↔ ({["valid"; "blocked"]} : gset string) ∩ {["valid"]} ≠ ∅).
Proof.
  split; [reflexivity|].
  apply (any_variant_condition any_variant_action
           {["valid"; "blocked"]} [] {["valid"]} false sample_rules () ()).
  reflexivity.
Defined.

Lemma all_variants_condition_witness :
  any_variant all_variants_action = None
  ∧ all_variants all_variants_action = Some {["valid"; "blocked"]}
  ∧ variant_matched all_variants_action ∅ true = false.
Proof.
  do 2 (split; [reflexivity|]).
  apply (all_variants_condition all_variants_action
           {["valid"; "blocked"]} [] {["valid"; "blocked"]} true
           sample_rules () ());
    reflexivity.
Defined.

Lemma only_variants_condition_witness :
  any_variant only_variants_action = None
  ∧ all_variants only_variants_action = None
  ∧ only_variants only_variants_action = Some {["valid"]}
  ∧ ∀ ds, variant_matched only_variants_action ds false = false.
Proof.
  do 3 (split; [reflexivity|]).
  apply (only_variants_condition only_variants_action
           {["valid"]} [] {["valid"]} true sample_rules () ());
    reflexivity.
Defined.

Lemma match_and_not_match_rejected_witness :
  is_Some (Some "leading-a")
  ∧ is_Some (Some "broken")
  ∧ Action_init "d" None (Some "leading-a") (Some "broken") None None None
    = Raise (LGRFormatException MATCH_NOT_MATCH).
Proof.
  split; [by eexists|]. split; [by eexists|].
  apply (proj1 (@match_and_not_match_rejected SampleRule unit unit
                  sample_matcher)); by eexists.
Defined.

Lemma empty_quantifier_is_absent_witness :
  Action_init "d" None None None (Some []) (Some ["valid"; "blocked"]) None
    = Return all_variants_action
  ∧ any_variant all_variants_action = None
  ∧ any_variant all_variants_action ≠ Some ∅
  ∧ all_variants all_variants_action ≠ Some ∅
  ∧ only_variants all_variants_action ≠ Some ∅.
Proof.
  assert (Action_init "d" None None None (Some []) (Some ["valid"; "blocked"])
                      None
          = Return all_variants_action)
    as Hinit by (vm_compute; reflexivity).
  split; [exact Hinit|].
  pose proof (proj1 (proj2 (proj2
    (@empty_quantifier_is_absent SampleRule unit unit sample_matcher)))
    "d" None None None (Some []) (Some ["valid"; "blocked"]) None
    all_variants_action Hinit) as (Hany & _ & _ & Hfields).
  split; [by apply Hany|exact Hfields].
Defined.

Lemma Action_eq_iff_witness :
  Action_eq guarded_action
            (mkAction "blocked" None (Some "leading-a") None
                      (Some {["x"; "y"]}) None None) = true
  ∧ Action_hash sample_hash guarded_action
    = Action_hash sample_hash
        (mkAction "blocked" None (Some "leading-a") None
                  (Some {["x"; "y"]}) None None).
Proof.
  assert (Action_eq guarded_action
            (mkAction "blocked" None (Some "leading-a") None
                      (Some {["x"; "y"]}) None None) = true)
    as Heq by (vm_compute; reflexivity).
  split; [exact Heq|].
  exact (proj1 (proj2 (proj2 Action_eq_iff)) sample_hash _ _ Heq).
Defined.

(** * Further properties of [Action] *)

(** [Action_eq] compares the six attributes. *)
Lemma Action_eq_true self other :
  Action_eq self other = true
  ↔ disp self = disp other
    ∧ match_ self = match_ other
    ∧ not_match self = not_match other
    ∧ any_variant self = any_variant other
    ∧ all_variants self = all_variants other
    ∧ only_variants self = only_variants other.
Proof.
  unfold Action_eq. rewrite !andb_true_iff, !bool_decide_eq_true. tauto.
Qed.

(** Facts on sets of dispositions that the quantifiers rest on. *)
Lemma nonempty_subseteq (X Y : gset string) : X ≠ ∅ → X ⊆ Y → Y ≠ ∅.
Proof.
  intros HX Hsub ->. apply HX. apply leibniz_equiv.
  by apply equiv_empty.
Qed.

Lemma intersection_subset_r (S X : gset string) : X ⊆ S → S ∩ X = X.
Proof.
  intros Hsub. rewrite (comm_L (∩)). by apply subseteq_intersection_1_L.
Qed.

Lemma intersection_singleton_nonempty (S : gset string) x :
  S ∩ {[x]} ≠ ∅ ↔ x ∈ S.
Proof.
  split.
  - intros Hne. destruct (decide (x ∈ S)) as [|Hx]; [done|].
    destruct Hne. apply leibniz_equiv, elem_of_equiv_empty.
    intros y [Hy ->%elem_of_singleton]%elem_of_intersection. by apply Hx.
  - intros Hx Hempty. apply (not_elem_of_empty (C:=gset string) x).
    rewrite <- Hempty. apply elem_of_intersection.
    split; [done|by apply elem_of_singleton].
Qed.

Lemma singleton_nonempty_subseteq (S : gset string) x :
  ({[x]} : gset string) ≠ ∅ ∧ {[x]} ⊆ S ↔ x ∈ S.
Proof.
  split.
  - intros [_ Hsub]. apply Hsub. by apply elem_of_singleton.
  - intros Hx. split; [apply non_empty_singleton_L|].
    by apply singleton_subseteq_l.
Qed.

Lemma bool_eq_bool_decide (b : bool) (P : Prop) `{!Decision P} :
  (b = true ↔ P) → b = bool_decide P.
Proof.
  intros [Hb HP]. destruct b; case_bool_decide as HPd; try done.
  - destruct HPd. by apply Hb.
  - by apply HP.
Qed.

Section further.
Context {Rule Classes UnicodeDatabase : Type}.
Context `{!Matcher Rule Classes UnicodeDatabase}.
Implicit Types (self other : Action) (label : label).
Implicit Types (disp_set : gset string) (flag : bool).
Implicit Types (rules_lookup : gmap string Rule) (classes_lookup : Classes).
Implicit Types (unicode_database : UnicodeDatabase).

(** X1.  Two actions that [__eq__] calls equal give the same result of
    [apply], value or exception, in every evaluation context. *)
Theorem equal_actions_apply_alike self other label disp_set flag rules_lookup
    classes_lookup unicode_database :
  Action_eq self other = true →
  apply self label disp_set flag rules_lookup classes_lookup unicode_database
  = apply other label disp_set flag rules_lookup classes_lookup
          unicode_database.
Proof.
  intros (Hd & Hm & Hn & Hany & Hall & Honly)%Action_eq_true.
  unfold apply, rule_matched, variant_matched.
  by rewrite Hd, Hm, Hn, Hany, Hall, Honly.
Qed.

(** X2.  On an object that holds both names, [apply] uses [match] and never
    looks at [not_match]: it gives what the same action without
    [not_match] gives, also when the [not_match] name is missing from the
    rules. *)
Theorem match_precedes_not_match self name label disp_set flag rules_lookup
    classes_lookup unicode_database :
  match_ self = Some name →
  apply self label disp_set flag rules_lookup classes_lookup unicode_database
  = apply (mkAction (disp self) (comment self) (Some name) None
                    (any_variant self) (all_variants self) (only_variants self))
          label disp_set flag rules_lookup classes_lookup unicode_database.
Proof.
  intros Hm. unfold apply, rule_matched, variant_matched. cbn. by rewrite Hm.
Qed.

(** X3.  When the rule that [apply] runs raises, [apply] raises the same
    exception, for every [disp_set] and flag: the quantifiers are not
    consulted first, so a failing variant condition does not hide it. *)
Theorem matcher_exception_propagates self name rule e label disp_set flag
    rules_lookup classes_lookup unicode_database :
  match_ self = Some name ∨ match_ self = None ∧ not_match self = Some name →
  rules_lookup !! name = Some rule →
  matches rule label rules_lookup classes_lookup unicode_database = Raise e →
  apply self label disp_set flag rules_lookup classes_lookup unicode_database
  = Raise e.
Proof.
  intros Hname Hrule Hraise. apply apply_Raise.
  unfold rule_matched, getitem.
  destruct Hname as [-> | [-> ->]]; rewrite Hrule; cbn; by rewrite Hraise.
Qed.

(** X4.  Two actions that differ only in carrying the same rule name under
    [match] and under [not_match] are complementary: when the rule returns
    [b] and the variant condition holds, the first returns its disposition
    iff [b] is true and [None] otherwise, the second the other way round. *)
Theorem match_not_match_complement d c c' name any all only rule b label
    disp_set flag rules_lookup classes_lookup unicode_database :
  rules_lookup !! name = Some rule →
  matches rule label rules_lookup classes_lookup unicode_database = Return b →
  variant_matched (mkAction d c (Some name) None any all only) disp_set flag
    = true →
  apply (mkAction d c (Some name) None any all only) label disp_set flag
        rules_lookup classes_lookup unicode_database
    = Return (if b then Some d else None)
  ∧ apply (mkAction d c' None (Some name) any all only) label disp_set flag
          rules_lookup classes_lookup unicode_database
    = Return (if b then None else Some d).
Proof.
  intros Hrule Hb Hv.
  assert (variant_matched (mkAction d c' None (Some name) any all only)
            disp_set flag = true) as Hv' by exact Hv.
  unfold apply, rule_matched, getitem. cbn. rewrite Hrule. cbn.
  rewrite Hb. cbn. rewrite Hv, Hv'. by destruct b.
Qed.

(** X5.  An action without [match] and [not_match] never raises and never
    reads the label, the rules, the classes or the Unicode database: its
    result is the same whatever they are. *)
Theorem no_rule_condition_needs_no_registry self disp_set flag
    label rules_lookup classes_lookup unicode_database
    label' rules_lookup' classes_lookup' unicode_database' :
  match_ self = None →
  not_match self = None →
  (∃ r, apply self label disp_set flag rules_lookup classes_lookup
              unicode_database = Return r)
  ∧ apply self label disp_set flag rules_lookup classes_lookup unicode_database
    = apply self label' disp_set flag rules_lookup' classes_lookup'
            unicode_database'.
Proof.
  intros Hm Hn. unfold apply, rule_matched. rewrite Hm, Hn. cbn.
  split; [|done]. destruct (variant_matched _ _ _); by eexists.
Qed.

(** X6.  The flag [only_variants] of [apply] matters only when the
    [only_variants] attribute is the quantifier in charge: with
    [any_variant] or [all_variants] present, or [only_variants] absent, both
    values of the flag give the same result. *)
Theorem flag_read_only_by_only_variants self label disp_set flag flag'
    rules_lookup classes_lookup unicode_database :
  is_Some (any_variant self) ∨ is_Some (all_variants self)
  ∨ only_variants self = None →
  apply self label disp_set flag rules_lookup classes_lookup unicode_database
  = apply self label disp_set flag' rules_lookup classes_lookup
          unicode_database.
Proof.
  intros Hq. unfold apply, variant_matched.
  destruct (any_variant self) as [any|]; [done|].
  destruct (all_variants self) as [all|]; [done|].
  destruct Hq as [[? [=]]|[[? [=]]| ->]]. done.
Qed.

(** X7.  An action without any quantifier does not read [disp_set] or the
    flag: its result depends on the rule condition alone. *)
Theorem no_quantifier_ignores_disp_set self label disp_set disp_set' flag flag'
    rules_lookup classes_lookup unicode_database :
  any_variant self = None →
  all_variants self = None →
  only_variants self = None →
  apply self label disp_set flag rules_lookup classes_lookup unicode_database
  = apply self label disp_set' flag' rules_lookup classes_lookup
          unicode_database.
Proof.
  intros Hany Hall Honly. unfold apply, variant_matched.
  by rewrite Hany, Hall, Honly.
Qed.

(** X8.  An action with a quantifier, whichever it is, never returns its
    disposition on the empty [disp_set]: when [apply] returns there, it
    returns [None]. *)
Theorem empty_disp_set_never_fires self label flag rules_lookup classes_lookup
    unicode_database r :
  is_Some (any_variant self) ∨ is_Some (all_variants self)
  ∨ is_Some (only_variants self) →
  apply self label ∅ flag rules_lookup classes_lookup unicode_database
    = Return r →
  r = None.
Proof.
  intros Hq (b & _ & ->)%apply_Return.
  assert (variant_matched self ∅ flag = false) as ->;
    [|by rewrite andb_false_r].
  apply not_true_iff_false. rewrite variant_matched_spec.
  unfold spec_variant_matched.
  destruct (any_variant self) as [any|].
  { intros Hne. apply Hne. apply (right_absorb_L ∅ (∩)). }
  destruct (all_variants self) as [all|]; [by intros [? _]|].
  destruct (only_variants self) as [only|]; [by intros (_ & ? & _)|].
  by destruct Hq as [[? [=]]|[[? [=]]|[? [=]]]].
Qed.

(** X9.  For one allowed set, the three quantifiers are ordered by
    strength: where the action with the set under [only_variants] fires, the
    action with it under [all_variants] fires, and where that one fires, the
    action with it under [any_variant] fires. *)
Theorem only_stronger_than_all_than_any d c m nm S label disp_set flag
    rules_lookup classes_lookup unicode_database :
  (apply (mkAction d c m nm None None (Some S)) label disp_set flag
         rules_lookup classes_lookup unicode_database = Return (Some d) →
   apply (mkAction d c m nm None (Some S) None) label disp_set flag
         rules_lookup classes_lookup unicode_database = Return (Some d))
  ∧ (apply (mkAction d c m nm None (Some S) None) label disp_set flag
           rules_lookup classes_lookup unicode_database = Return (Some d) →
     apply (mkAction d c m nm (Some S) None None) label disp_set flag
           rules_lookup classes_lookup unicode_database = Return (Some d)).
Proof.
  split.
  - intros [Hr Hv]%(apply_Some_disp (mkAction d c m nm None None (Some S))).
    apply (apply_Some_disp (mkAction d c m nm None (Some S) None)).
    split; [exact Hr|].
    apply variant_matched_spec. apply variant_matched_spec in Hv.
    cbn in *. tauto.
  - intros [Hr Hv]%(apply_Some_disp (mkAction d c m nm None (Some S) None)).
    apply (apply_Some_disp (mkAction d c m nm (Some S) None None)).
    split; [exact Hr|].
    apply variant_matched_spec. apply variant_matched_spec in Hv.
    cbn in *. destruct Hv as [Hne Hsub].
    by rewrite intersection_subset_r.
Qed.

(** X10.  On a [disp_set] of one disposition [x], [any_variant] and
    [all_variants] with the same allowed set say the same thing, that [x]
    is allowed, and the two actions give the same result. *)
Theorem any_all_agree_on_singleton d c m nm S x label flag rules_lookup
    classes_lookup unicode_database :
  variant_matched (mkAction d c m nm (Some S) None None) {[x]} flag
    = bool_decide (x ∈ S)
  ∧ variant_matched (mkAction d c m nm None (Some S) None) {[x]} flag
    = bool_decide (x ∈ S)
  ∧ apply (mkAction d c m nm (Some S) None None) label {[x]} flag
          rules_lookup classes_lookup unicode_database
    = apply (mkAction d c m nm None (Some S) None) label {[x]} flag
            rules_lookup classes_lookup unicode_database.
Proof.
  assert (variant_matched (mkAction d c m nm (Some S) None None) {[x]} flag
          = bool_decide (x ∈ S)) as Hany.
  { apply bool_eq_bool_decide. rewrite variant_matched_spec.
    apply intersection_singleton_nonempty. }
  assert (variant_matched (mkAction d c m nm None (Some S) None) {[x]} flag
          = bool_decide (x ∈ S)) as Hall.
  { apply bool_eq_bool_decide. rewrite variant_matched_spec.
    apply singleton_nonempty_subseteq. }
  do 2 (split; [done|]).
  unfold apply. by rewrite Hany, Hall.
Qed.

(** X11.  [any_variant] is monotone in [disp_set]: an action with
    [any_variant] that fires on a [disp_set] fires on every larger one. *)
Theorem any_variant_monotone self S label disp_set disp_set' flag rules_lookup
    classes_lookup unicode_database :
  any_variant self = Some S →
  disp_set ⊆ disp_set' →
  apply self label disp_set flag rules_lookup classes_lookup unicode_database
    = Return (Some (disp self)) →
  apply self label disp_set' flag rules_lookup classes_lookup unicode_database
    = Return (Some (disp self)).
Proof.
  intros Hany Hsub [Hr Hv]%apply_Some_disp.
  apply apply_Some_disp. split; [done|].
  apply variant_matched_spec. apply variant_matched_spec in Hv.
  unfold spec_variant_matched in *. rewrite Hany in *.
  eapply nonempty_subseteq; [exact Hv|]. by apply intersection_mono.
Qed.

(** X12.  [all_variants] and [only_variants] go the other way: an action
    ruled by one of them that fires on a [disp_set] fires on each of its
    non-empty subsets. *)
Theorem all_only_variants_antitone self label disp_set disp_set' flag
    rules_lookup classes_lookup unicode_database :
  any_variant self = None →
  is_Some (all_variants self) ∨ is_Some (only_variants self) →
  disp_set' ⊆ disp_set →
  disp_set' ≠ ∅ →
  apply self label disp_set flag rules_lookup classes_lookup unicode_database
    = Return (Some (disp self)) →
  apply self label disp_set' flag rules_lookup classes_lookup unicode_database
    = Return (Some (disp self)).
Proof.
  intros Hany Hq Hsub Hne [Hr Hv]%apply_Some_disp.
  apply apply_Some_disp. split; [done|].
  apply variant_matched_spec. apply variant_matched_spec in Hv.
  unfold spec_variant_matched in *. rewrite Hany in *.
  destruct (all_variants self) as [all|].
  { split; [done|]. destruct Hv as [_ Hv]. by etrans. }
  destruct (only_variants self) as [only|].
  { destruct Hv as (Hf & _ & Hv). do 2 (split; [done|]). by etrans. }
  by destruct Hq as [[? [=]]|[? [=]]].
Qed.

(** X13.  Allowing more dispositions never stops an action from firing: for
    each of the three quantifiers, an action that fires with the allowed set
    [S] fires with every larger set [S']. *)
Theorem allowed_set_monotone d c m nm S S' label disp_set flag rules_lookup
    classes_lookup unicode_database :
  S ⊆ S' →
  (apply (mkAction d c m nm (Some S) None None) label disp_set flag
         rules_lookup classes_lookup unicode_database = Return (Some d) →
   apply (mkAction d c m nm (Some S') None None) label disp_set flag
         rules_lookup classes_lookup unicode_database = Return (Some d))
  ∧ (apply (mkAction d c m nm None (Some S) None) label disp_set flag
           rules_lookup classes_lookup unicode_database = Return (Some d) →
     apply (mkAction d c m nm None (Some S') None) label disp_set flag
           rules_lookup classes_lookup unicode_database = Return (Some d))
  ∧ (apply (mkAction d c m nm None None (Some S)) label disp_set flag
           rules_lookup classes_lookup unicode_database = Return (Some d) →
     apply (mkAction d c m nm None None (Some S')) label disp_set flag
           rules_lookup classes_lookup unicode_database = Return (Some d)).
Proof.
  intros Hsub. split; [|split].
  - intros [Hr Hv]%(apply_Some_disp (mkAction d c m nm (Some S) None None)).
    apply (apply_Some_disp (mkAction d c m nm (Some S') None None)).
    split; [exact Hr|].
    apply variant_matched_spec. apply variant_matched_spec in Hv. cbn in *.
    eapply nonempty_subseteq; [exact Hv|]. by apply intersection_mono.
  - intros [Hr Hv]%(apply_Some_disp (mkAction d c m nm None (Some S) None)).
    apply (apply_Some_disp (mkAction d c m nm None (Some S') None)).
    split; [exact Hr|].
    apply variant_matched_spec. apply variant_matched_spec in Hv. cbn in *.
    destruct Hv as [Hne Hv]. split; [done|]. by etrans.
  - intros [Hr Hv]%(apply_Some_disp (mkAction d c m nm None None (Some S))).
    apply (apply_Some_disp (mkAction d c m nm None None (Some S'))).
    split; [exact Hr|].
    apply variant_matched_spec. apply variant_matched_spec in Hv. cbn in *.
    destruct Hv as (Hf & Hne & Hv). do 2 (split; [done|]). by etrans.
Qed.

End further.

(** ** Construction, equality and representation *)

(** The frozenset that [__init__] stores has the members of the sequence;
    a missing field stands for no member. *)
Lemma frozenset_or_None_elem xs x :
  x ∈ default ∅ (frozenset_or_None xs) ↔ x ∈ default [] xs.
Proof.
  destruct xs as [[|y l]|]; cbn.
  - by rewrite elem_of_empty, elem_of_nil.
  - by rewrite <- list_to_set_cons, elem_of_list_to_set.
  - by rewrite elem_of_empty, elem_of_nil.
Qed.

(** Sequences with the same members are stored as the same field. *)
Lemma frozenset_or_None_ext xs ys :
  (∀ x, x ∈ default [] xs ↔ x ∈ default [] ys) →
  frozenset_or_None xs = frozenset_or_None ys.
Proof.
  intros Hsame.
  assert (∀ x, x ∈ default ∅ (frozenset_or_None xs)
               ↔ x ∈ default ∅ (frozenset_or_None ys)) as Hsets.
  { intros x. by rewrite !frozenset_or_None_elem. }
  destruct (frozenset_or_None xs) as [X|] eqn:HX,
           (frozenset_or_None ys) as [Y|] eqn:HY; cbn in Hsets.
  - f_equal. apply leibniz_equiv. intros x. apply Hsets.
  - apply frozenset_or_None_nonempty in HX. destruct HX.
    apply leibniz_equiv, elem_of_equiv_empty. intros x Hx.
    apply Hsets in Hx. by apply elem_of_empty in Hx.
  - apply frozenset_or_None_nonempty in HY. destruct HY.
    apply leibniz_equiv, elem_of_equiv_empty. intros x Hx.
    apply Hsets in Hx. by apply elem_of_empty in Hx.
  - done.
Qed.

(** X14.  The action that [__init__] returns holds, in each quantifier
    field, exactly the dispositions of the sequence it was given; a field
    left out, and a field that is [None] afterwards, hold none. *)
Theorem init_stores_the_dispositions d c m nm any all only self x :
  Action_init d c m nm any all only = Return self →
  (x ∈ default ∅ (any_variant self) ↔ x ∈ default [] any)
  ∧ (x ∈ default ∅ (all_variants self) ↔ x ∈ default [] all)
  ∧ (x ∈ default ∅ (only_variants self) ↔ x ∈ default [] only).
Proof.
  intros [_ ->]%Action_init_inv. cbn.
  repeat split; by apply frozenset_or_None_elem.
Qed.

(** X15.  The order of the dispositions in the sequences, their repetition
    and the comment play no part in what is built: two calls of [__init__]
    with the same disposition and rule names and with sequences of the same
    members return actions that [__eq__] calls equal and that hash alike. *)
Theorem init_ignores_order_and_duplicates d c c' m nm any any' all all' only
    only' self other :
  (∀ x, x ∈ default [] any ↔ x ∈ default [] any') →
  (∀ x, x ∈ default [] all ↔ x ∈ default [] all') →
  (∀ x, x ∈ default [] only ↔ x ∈ default [] only') →
  Action_init d c m nm any all only = Return self →
  Action_init d c' m nm any' all' only' = Return other →
  Action_eq self other = true
  ∧ ∀ hash, Action_hash hash self = Action_hash hash other.
Proof.
  intros Hany%frozenset_or_None_ext Hall%frozenset_or_None_ext
    Honly%frozenset_or_None_ext [_ ->]%Action_init_inv [_ ->]%Action_init_inv.
  split.
  - apply Action_eq_true. cbn. by rewrite Hany, Hall, Honly.
  - intros hash. unfold Action_hash. cbn. by rewrite Hany, Hall, Honly.
Qed.

(** X16.  [__eq__] is an equivalence on actions: reflexive, symmetric and
    transitive. *)
Theorem Action_eq_equivalence :
  (∀ self, Action_eq self self = true)
  ∧ (∀ self other, Action_eq self other = Action_eq other self)
  ∧ (∀ a b c,
       Action_eq a b = true → Action_eq b c = true → Action_eq a c = true).
Proof.
  split; [|split].
  - intros self. by apply Action_eq_true.
  - intros self other.
    destruct (Action_eq other self) eqn:Hos.
    + apply Action_eq_true. apply Action_eq_true in Hos.
      by destruct Hos as (-> & -> & -> & -> & -> & ->).
    + apply not_true_iff_false. intros Hso. apply not_true_iff_false in Hos.
      apply Hos. apply Action_eq_true. apply Action_eq_true in Hso.
      by destruct Hso as (-> & -> & -> & -> & -> & ->).
  - intros a b c Hab%Action_eq_true Hbc%Action_eq_true. apply Action_eq_true.
    destruct Hab as (-> & -> & -> & -> & -> & ->). exact Hbc.
Qed.

(** The text between the brackets of a representation can be read back. *)
Lemma append_bracket_inj (x y : string) : x +:+ ">" = y +:+ ">" → x = y.
Proof.
  revert y. induction x as [|a x IH]; intros [|b y]; cbn.
  - done.
  - intros [= <- Hy]. by destruct y.
  - intros [= -> Hx]. by destruct x.
  - intros [= -> Hxy]. f_equal. by apply IH.
Qed.

(** X17.  The representation shows the comment and nothing else.  Without
    a comment, or with the empty one, it is ["<Action: anon>"]; two actions
    with non-empty comments have the same representation iff the comments
    are the same, whatever their dispositions and conditions; and only the
    comment ["anon"] is rendered like a missing one. *)
Theorem Action_repr_shows_the_comment :
  (∀ self,
     comment self = None ∨ comment self = Some "" →
     Action_repr self = "<Action: anon>")
  ∧ (∀ self other c c',
       comment self = Some c → c ≠ "" →
       comment other = Some c' → c' ≠ "" →
       (Action_repr self = Action_repr other ↔ c = c'))
  ∧ (∀ self c,
       comment self = Some c → c ≠ "" →
       (Action_repr self = "<Action: anon>" ↔ c = "anon")).
Proof.
  split; [|split].
  - intros self [Hc|Hc]; unfold Action_repr; by rewrite Hc.
  - intros self other c c' Hc Hne Hc' Hne'. unfold Action_repr.
    rewrite Hc, Hc'. do 2 (case_decide; [done|]).
    split; [|by intros ->].
    intros Heq%(inj (String.append _)). by apply append_bracket_inj.
  - intros self c Hc Hne. unfold Action_repr.
    rewrite Hc. case_decide; [done|].
    split; [|by intros ->].
    intros Heq. change "<Action: anon>" with ("<Action: " +:+ "anon" +:+ ">") in Heq.
    apply (inj (String.append _)) in Heq.
    by apply (append_bracket_inj c "anon").
Qed.

(** ** The log of [apply] *)

(** Splits on the rule part of an [apply], then on its quantifier, then on
    the booleans they compute. *)
Ltac split_rule_part self rules_lookup :=
  destruct (match_ self); [|destruct (not_match self)];
  try match goal with
      | |- context [rules_lookup !! ?n] => destruct (rules_lookup !! n)
      end;
  cbn;
  try match goal with
      | |- context [matches ?r ?l ?rs ?cs ?u] =>
          destruct (matches r l rs cs u) as [[]|]
      end.

Ltac split_quantifier self :=
  destruct (any_variant self);
    [|destruct (all_variants self); [|destruct (only_variants self)]].

Ltac split_booleans :=
  repeat match goal with
         | |- context [Nat.ltb ?a ?b] => destruct (Nat.ltb a b)
         | |- context [size ?X] => destruct (size X)
         | |- context [bool_decide ?P] => destruct (bool_decide P)
         | |- context [andb ?f _] => is_var f; destruct f
         end.

(** What the records of the two conditions look like. *)
Lemma elem_of_rule_records r self b :
  r ∈ rule_records self b →
  log_args r = [ArgAction self; ArgBool b]
  ∧ (log_msg r = "Action %s: when rule matched: %s"
     ∨ log_msg r = "Action %s: not-when rule matched: %s").
Proof.
  unfold rule_records.
  destruct (match_ self), (not_match self);
    intros Hr;
    first [by apply elem_of_nil in Hr
          |apply list_elem_of_singleton in Hr as ->; cbn; auto].
Qed.

Lemma elem_of_variant_records r self v :
  r ∈ variant_records self v →
  log_args r = [ArgAction self; ArgBool v]
  ∧ (log_msg r = "Action %s: any-variant matched: %s"
     ∨ log_msg r = "Action %s: all-variants matched: %s"
     ∨ log_msg r = "Action %s: only-variants matched: %s").
Proof.
  unfold variant_records.
  destruct (any_variant self), (all_variants self), (only_variants self);
    intros Hr;
    first [by apply elem_of_nil in Hr
          |apply list_elem_of_singleton in Hr as ->; cbn; auto].
Qed.

Lemma closing_record_msg self outcome :
  log_msg (closing_record self outcome)
    = "Action %s triggered, disposition: %s"
  ∨ log_msg (closing_record self outcome) = "Action %s not triggered".
Proof. destruct outcome; cbn; auto. Qed.

Section log.
Context {Rule Classes UnicodeDatabase : Type}.
Context `{!Matcher Rule Classes UnicodeDatabase}.
Variable format_cp : label → string.
Implicit Types (self : Action) (label : label) (disp_set : gset string).
Implicit Types (rules_lookup : gmap string Rule) (classes_lookup : Classes).
Implicit Types (unicode_database : UnicodeDatabase).

(** The whole run of [apply]: nothing but the opening record when the rule
    part raises; else the opening record, the records of the two
    conditions and the closing record. *)
Lemma apply_logged_run self label disp_set flag rules_lookup classes_lookup
    unicode_database :
  apply_logged format_cp self label disp_set flag rules_lookup classes_lookup
               unicode_database
  = match rule_matched self label rules_lookup classes_lookup
                       unicode_database with
    | Raise e => ([opening_record format_cp self label disp_set], Raise e)
    | Return b =>
        let v := variant_matched self disp_set flag in
        let outcome := if b && v then Some (disp self) else None in
        (opening_record format_cp self label disp_set
           :: rule_records self b ++ variant_records self v
           ++ [closing_record self outcome],
         Return outcome)
    end.
Proof.
  unfold apply_logged, rule_matched, variant_matched, rule_records,
    variant_records, getitem, quiet, info, debug, opening_record.
  split_rule_part self rules_lookup; cbn;
    split_quantifier self; cbn; split_booleans; done.
Qed.


(** X19.  The log of [apply] always opens with the DEBUG record that names
    the action, the label and [disp_set].  When [apply] returns, the log
    closes with the record of the outcome: "triggered" with the disposition
    when it returns one, "not triggered" when it returns [None].  When
    [apply] raises, the opening record is all that was logged. *)
Theorem apply_log_opens_and_closes self label disp_set flag rules_lookup
    classes_lookup unicode_database :
  let run := apply_logged format_cp self label disp_set flag rules_lookup
                          classes_lookup unicode_database in
  head run.1 = Some (opening_record format_cp self label disp_set)
  ∧ match run.2 with
    | Return outcome => last run.1 = Some (closing_record self outcome)
    | Raise _ => run.1 = [opening_record format_cp self label disp_set]
    end.
Proof.
  cbn zeta. rewrite apply_logged_run.
  destruct (rule_matched _ _ _ _ _) as [b|e]; [|done].
  cbn. split; [done|].
  by rewrite app_comm_cons, app_assoc, last_snoc.
Qed.


(** X21.  The log tells the truth about the two conditions: a record
    "when rule matched" or "not-when rule matched" in the log carries the
    value of [rule_matched], and a record "any-variant matched",
    "all-variants matched" or "only-variants matched" carries the value of
    [variant_matched], that [apply] decided with. *)
Theorem apply_log_reports_the_values_used self label disp_set flag rules_lookup
    classes_lookup unicode_database b :
  let run := apply_logged format_cp self label disp_set flag rules_lookup
                          classes_lookup unicode_database in
  (mkLog INFO "Action %s: when rule matched: %s" [ArgAction self; ArgBool b]
     ∈ run.1
   ∨ mkLog INFO "Action %s: not-when rule matched: %s"
           [ArgAction self; ArgBool b] ∈ run.1 →
   rule_matched self label rules_lookup classes_lookup unicode_database
     = Return b)
  ∧ (mkLog INFO "Action %s: any-variant matched: %s"
           [ArgAction self; ArgBool b] ∈ run.1
     ∨ mkLog INFO "Action %s: all-variants matched: %s"
             [ArgAction self; ArgBool b] ∈ run.1
     ∨ mkLog INFO "Action %s: only-variants matched: %s"
             [ArgAction self; ArgBool b] ∈ run.1 →
     variant_matched self disp_set flag = b).
Proof.
  cbn zeta. rewrite apply_logged_run.
  destruct (rule_matched _ _ _ _ _) as [b'|e]; cbn.
  - set (outcome := if b' && _ then _ else _).
    pose proof (closing_record_msg self outcome) as Hclose.
    rewrite !elem_of_cons, !elem_of_app, !list_elem_of_singleton.
    split; intros Hin; destruct_or?; try discriminate.
    all: try match goal with
             | H : _ ∈ rule_records _ _ |- _ =>
                 apply elem_of_rule_records in H as [Hargs Hmsg]
             | H : _ ∈ variant_records _ _ |- _ =>
                 apply elem_of_variant_records in H as [Hargs Hmsg]
             | H : _ = closing_record _ _ |- _ =>
                 rewrite <- H in Hclose; cbn in Hclose
             end.
    all: destruct_or?; try discriminate.
    all: cbn in Hargs; by injection Hargs as ->.
  - rewrite !list_elem_of_singleton.
    split; intros Hin; destruct_or?; discriminate.
Qed.

End log.

(** ** The further properties at concrete inputs *)

Lemma equal_actions_apply_alike_witness :
  Action_eq guarded_action uncommented_action = true
  ∧ apply guarded_action [97%N] {["x"]} false sample_rules () ()
    = apply uncommented_action [97%N] {["x"]} false sample_rules () ().
Proof.
  assert (Action_eq guarded_action uncommented_action = true) as Heq
    by (vm_compute; reflexivity).
  split; [exact Heq|].
  exact (equal_actions_apply_alike guarded_action uncommented_action [97%N]
           {["x"]} false sample_rules () () Heq).
Defined.

Lemma match_precedes_not_match_witness :
  match_ both_rules_action = Some "leading-a"
  ∧ apply both_rules_action [97%N] ∅ false sample_rules () ()
    = apply rule_only_action [97%N] ∅ false sample_rules () ().
Proof.
  split; [reflexivity|].
  apply (match_precedes_not_match both_rules_action "leading-a" [97%N] ∅
           false sample_rules () ()).
  reflexivity.
Defined.

Lemma matcher_exception_propagates_witness :
  (match_ broken_rule_action = Some "broken"
   ∨ match_ broken_rule_action = None
     ∧ not_match broken_rule_action = Some "broken")
  ∧ sample_rules !! "broken" = Some (Invalid "bad rule")
  ∧ matches (Invalid "bad rule") [97%N] sample_rules () ()
    = Raise (RuleError "bad rule")
  ∧ apply broken_rule_action [97%N] {["other"]} false sample_rules () ()
    = Raise (RuleError "bad rule").
Proof.
  split; [left; reflexivity|]. split; [vm_compute; reflexivity|].
  split; [reflexivity|].
  apply (matcher_exception_propagates broken_rule_action "broken"
           (Invalid "bad rule") (RuleError "bad rule") [97%N] {["other"]}
           false sample_rules () ()).
  - left. reflexivity.
  - vm_compute. reflexivity.
  - reflexivity.
Defined.

Lemma match_not_match_complement_witness :
  sample_rules !! "leading-a" = Some (StartsWith 97%N)
  ∧ matches (StartsWith 97%N) [97%N] sample_rules () () = Return true
  ∧ variant_matched rule_only_action ∅ false = true
  ∧ apply rule_only_action [97%N] ∅ false sample_rules () ()
    = Return (Some "blocked")
  ∧ apply (mkAction "blocked" (Some "negated") None (Some "leading-a")
                    None None None)
          [97%N] ∅ false sample_rules () ()
    = Return None.
Proof.
  split; [vm_compute; reflexivity|]. split; [vm_compute; reflexivity|].
  split; [reflexivity|].
  apply (match_not_match_complement "blocked" None (Some "negated")
           "leading-a" None None None (StartsWith 97%N) true [97%N] ∅ false
           sample_rules () ()).
  - vm_compute. reflexivity.
  - vm_compute. reflexivity.
  - reflexivity.
Defined.

Lemma no_rule_condition_needs_no_registry_witness :
  match_ catch_all_action = None
  ∧ not_match catch_all_action = None
  ∧ (∃ r, apply catch_all_action [97%N] ∅ false sample_rules () ()
          = Return r)
  ∧ apply catch_all_action [97%N] ∅ false sample_rules () ()
    = apply catch_all_action [] ∅ false (∅ : gmap string SampleRule) () ().
Proof.
  do 2 (split; [reflexivity|]).
  apply (no_rule_condition_needs_no_registry catch_all_action ∅ false
           [97%N] sample_rules () () [] ∅ () ()); reflexivity.
Defined.

Lemma flag_read_only_by_only_variants_witness :
  (is_Some (any_variant any_variant_action)
   ∨ is_Some (all_variants any_variant_action)
   ∨ only_variants any_variant_action = None)
  ∧ apply any_variant_action [] {["valid"]} true sample_rules () ()
    = apply any_variant_action [] {["valid"]} false sample_rules () ().
Proof.
  split; [left; by eexists|].
  apply (flag_read_only_by_only_variants any_variant_action [] {["valid"]}
           true false sample_rules () ()).
  left. by eexists.
Defined.

Lemma no_quantifier_ignores_disp_set_witness :
  any_variant rule_only_action = None
  ∧ all_variants rule_only_action = None
  ∧ only_variants rule_only_action = None
  ∧ apply rule_only_action [97%N] ∅ false sample_rules () ()
    = apply rule_only_action [97%N] {["blocked"]} true sample_rules () ().
Proof.
  do 3 (split; [reflexivity|]).
  apply (no_quantifier_ignores_disp_set rule_only_action [97%N] ∅
           {["blocked"]} false true sample_rules () ()); reflexivity.
Defined.

Lemma empty_disp_set_never_fires_witness :
  (is_Some (any_variant any_variant_action)
   ∨ is_Some (all_variants any_variant_action)
   ∨ is_Some (only_variants any_variant_action))
  ∧ apply any_variant_action [] ∅ true sample_rules () () = Return None
  ∧ (None : option string) = None.
Proof.
  split; [left; by eexists|].
  assert (apply any_variant_action [] ∅ true sample_rules () ()
          = Return None) as Hrun by (vm_compute; reflexivity).
  split; [exact Hrun|].
  apply (empty_disp_set_never_fires any_variant_action [] true sample_rules
           () () None); [left; by eexists|exact Hrun].
Defined.

Lemma only_stronger_than_all_than_any_witness :
  apply only_variants_action [] {["valid"]} true sample_rules () ()
    = Return (Some "d")
  ∧ apply (mkAction "d" None None None None (Some {["valid"]}) None)
          [] {["valid"]} true sample_rules () ()
    = Return (Some "d").
Proof.
  assert (apply only_variants_action [] {["valid"]} true sample_rules () ()
          = Return (Some "d")) as Hrun by (vm_compute; reflexivity).
  split; [exact Hrun|].
  exact (proj1 (only_stronger_than_all_than_any "d" None None None {["valid"]}
                  [] {["valid"]} true sample_rules () ()) Hrun).
Defined.

Lemma any_variant_monotone_witness :
  any_variant any_variant_action = Some {["valid"; "blocked"]}
  ∧ ({["valid"]} : gset string) ⊆ {["valid"; "other"]}
  ∧ apply any_variant_action [] {["valid"]} false sample_rules () ()
    = Return (Some (disp any_variant_action))
  ∧ apply any_variant_action [] {["valid"; "other"]} false sample_rules () ()
    = Return (Some (disp any_variant_action)).
Proof.
  assert (({["valid"]} : gset string) ⊆ {["valid"; "other"]}) as Hsub
    by (apply (bool_decide_unpack _); vm_compute; exact I).
  assert (apply any_variant_action [] {["valid"]} false sample_rules () ()
          = Return (Some (disp any_variant_action))) as Hrun
    by (vm_compute; reflexivity).
  split; [reflexivity|]. split; [exact Hsub|]. split; [exact Hrun|].
  exact (any_variant_monotone any_variant_action {["valid"; "blocked"]} []
           {["valid"]} {["valid"; "other"]} false sample_rules () ()
           eq_refl Hsub Hrun).
Defined.

Lemma all_only_variants_antitone_witness :
  any_variant all_variants_action = None
  ∧ (is_Some (all_variants all_variants_action)
     ∨ is_Some (only_variants all_variants_action))
  ∧ ({["valid"]} : gset string) ⊆ {["valid"; "blocked"]}
  ∧ ({["valid"]} : gset string) ≠ ∅
  ∧ apply all_variants_action [] {["valid"; "blocked"]} false sample_rules
          () ()
    = Return (Some (disp all_variants_action))
  ∧ apply all_variants_action [] {["valid"]} false sample_rules () ()
    = Return (Some (disp all_variants_action)).
Proof.
  assert (({["valid"]} : gset string) ⊆ {["valid"; "blocked"]}) as Hsub
    by (apply (bool_decide_unpack _); vm_compute; exact I).
  assert (({["valid"]} : gset string) ≠ ∅) as Hne
    by (apply (bool_decide_unpack _); vm_compute; exact I).
  assert (apply all_variants_action [] {["valid"; "blocked"]} false
                sample_rules () ()
          = Return (Some (disp all_variants_action))) as Hrun
    by (vm_compute; reflexivity).
  split; [reflexivity|]. split; [left; by eexists|].
  split; [exact Hsub|]. split; [exact Hne|]. split; [exact Hrun|].
  apply (all_only_variants_antitone all_variants_action []
           {["valid"; "blocked"]} {["valid"]} false sample_rules () ());
    [reflexivity|left; by eexists|exact Hsub|exact Hne|exact Hrun].
Defined.

Lemma allowed_set_monotone_witness :
  ({["valid"]} : gset string) ⊆ {["valid"; "blocked"]}
  ∧ apply (mkAction "d" None None None (Some {["valid"]}) None None)
          [] {["valid"]} false sample_rules () ()
    = Return (Some "d")
  ∧ apply any_variant_action [] {["valid"]} false sample_rules () ()
    = Return (Some "d").
Proof.
  assert (({["valid"]} : gset string) ⊆ {["valid"; "blocked"]}) as Hsub
    by (apply (bool_decide_unpack _); vm_compute; exact I).
  assert (apply (mkAction "d" None None None (Some {["valid"]}) None None)
                [] {["valid"]} false sample_rules () ()
          = Return (Some "d")) as Hrun by (vm_compute; reflexivity).
  split; [exact Hsub|]. split; [exact Hrun|].
  exact (proj1 (allowed_set_monotone "d" None None None {["valid"]}
                  {["valid"; "blocked"]} [] {["valid"]} false sample_rules
                  () () Hsub) Hrun).
Defined.

Lemma init_stores_the_dispositions_witness :
  Action_init "d" None None None (Some ["valid"; "blocked"]) None None
    = Return any_variant_action
  ∧ ("valid" ∈ default ∅ (any_variant any_variant_action)
     ↔ "valid" ∈ default [] (Some ["valid"; "blocked"])).
Proof.
  assert (Action_init "d" None None None (Some ["valid"; "blocked"]) None None
          = Return any_variant_action) as Hinit by (vm_compute; reflexivity).
  split; [exact Hinit|].
  exact (proj1 (init_stores_the_dispositions "d" None None None
                  (Some ["valid"; "blocked"]) None None any_variant_action
                  "valid" Hinit)).
Defined.

Lemma init_ignores_order_and_duplicates_witness :
  (∀ x : string, x ∈ default [] (Some ["valid"; "blocked"])
                 ↔ x ∈ default [] (Some ["blocked"; "valid"; "valid"]))
  ∧ Action_init "d" None None None (Some ["valid"; "blocked"]) None None
    = Return any_variant_action
  ∧ Action_init "d" (Some "again") None None
                (Some ["blocked"; "valid"; "valid"]) None None
    = Return (mkAction "d" (Some "again") None None
                       (Some {["valid"; "blocked"]}) None None)
  ∧ Action_eq any_variant_action
              (mkAction "d" (Some "again") None None
                        (Some {["valid"; "blocked"]}) None None) = true
  ∧ ∀ hash, Action_hash hash any_variant_action
            = Action_hash hash
                (mkAction "d" (Some "again") None None
                          (Some {["valid"; "blocked"]}) None None).
Proof.
  assert (∀ x : string, x ∈ default [] (Some ["valid"; "blocked"])
                        ↔ x ∈ default [] (Some ["blocked"; "valid"; "valid"]))
    as Hsame.
  { intros x. cbn. rewrite !elem_of_cons, elem_of_nil. tauto. }
  assert (Action_init "d" None None None (Some ["valid"; "blocked"]) None None
          = Return any_variant_action) as Hinit by (vm_compute; reflexivity).
  assert (Action_init "d" (Some "again") None None
                      (Some ["blocked"; "valid"; "valid"]) None None
          = Return (mkAction "d" (Some "again") None None
                             (Some {["valid"; "blocked"]}) None None))
    as Hinit' by (vm_compute; reflexivity).
  split; [exact Hsame|]. split; [exact Hinit|]. split; [exact Hinit'|].
  exact (init_ignores_order_and_duplicates "d" None (Some "again") None None
           (Some ["valid"; "blocked"]) (Some ["blocked"; "valid"; "valid"])
           None None None None any_variant_action _
           Hsame (λ x, iff_refl _) (λ x, iff_refl _) Hinit Hinit').
Defined.

Lemma Action_eq_equivalence_witness :
  Action_eq guarded_action uncommented_action = true
  ∧ Action_eq uncommented_action guarded_action = true
  ∧ Action_eq guarded_action guarded_action = true.
Proof.
  assert (Action_eq guarded_action uncommented_action = true) as Hab
    by (vm_compute; reflexivity).
  assert (Action_eq uncommented_action guarded_action = true) as Hba
    by (vm_compute; reflexivity).
  split; [exact Hab|]. split; [exact Hba|].
  exact (proj2 (proj2 Action_eq_equivalence) _ _ _ Hab Hba).
Defined.

Lemma Action_repr_shows_the_comment_witness :
  (comment uncommented_action = None ∨ comment uncommented_action = Some "")
  ∧ Action_repr uncommented_action = "<Action: anon>".
Proof.
  split; [left; reflexivity|].
  apply (proj1 Action_repr_shows_the_comment uncommented_action).
  left. reflexivity.
Defined.


Lemma apply_log_reports_the_values_used_witness :
  mkLog INFO "Action %s: any-variant matched: %s"
        [ArgAction guarded_action; ArgBool true]
    ∈ (apply_logged sample_format_cp guarded_action [97%N] {["x"]} false
                    sample_rules () ()).1
  ∧ variant_matched guarded_action {["x"]} false = true.
Proof.
  assert (mkLog INFO "Action %s: any-variant matched: %s"
                [ArgAction guarded_action; ArgBool true]
            ∈ (apply_logged sample_format_cp guarded_action [97%N] {["x"]}
                            false sample_rules () ()).1) as Hin.
  { rewrite apply_logged_run.
    assert (rule_matched guarded_action [97%N] sample_rules () ()
            = Return true) as -> by (vm_compute; reflexivity).
    assert (variant_matched guarded_action {["x"]} false = true) as ->
      by (vm_compute; reflexivity).
    cbn. rewrite !elem_of_cons. auto. }
  split; [exact Hin|].
  apply (proj2 (apply_log_reports_the_values_used sample_format_cp
                  guarded_action [97%N] {["x"]} false sample_rules () ()
                  true)).
  left. exact Hin.
Defined.
